(** * Claim-processor agent: routing core of the LangGraph state machine

    A shallow embedding of [src/agent/graph.ts] (the router [shouldContinue],
    the node [callModel] and the graph wiring done by [builder]) and of the
    HTTP entry point [src/app.ts], together with the properties of the
    routing/orchestration core.

    Conventions.  JavaScript [undefined] is [None]; a thrown exception is a
    value of [JsError]; [console.log] is modelled by threading the console
    (the list of lines printed so far) through the functions that print. *)

From stdpp Require Import base option list strings gmap.
From Stdlib Require Import Lia.

Open Scope string_scope.
Open Scope list_scope.

(** ** Messages (the `@langchain/core/messages` data the code inspects) *)

(** The values [_getType()] can return. *)
Inductive MessageType := human | ai | system | tool | generic.

Global Instance MessageType_eq_dec : EqDecision MessageType.
Proof. solve_decision. Defined.

(** A tool call carried by an AI message: [{ name, args, id }]. *)
Record ToolCall := mkToolCall {
  name : string;
  args : list (string * string);
  id : option string;
}.

Global Instance ToolCall_eq_dec : EqDecision ToolCall.
Proof. solve_decision. Defined.

(** A message.  [tool_calls] is [None] when the field is absent
    ([undefined]), which is the case for every message that is not an
    [AIMessage]; [tool_call_id] is only set on tool messages. *)
Record Message := mkMessage {
  _getType : MessageType;
  content : string;
  tool_calls : option (list ToolCall);
  tool_call_id : option string;
}.

Global Instance Message_eq_dec : EqDecision Message.
Proof. solve_decision. Defined.

Definition HumanMessage (text : string) : Message :=
  mkMessage human text None None.

Definition AIMessage (text : string) (calls : list ToolCall) : Message :=
  mkMessage ai text (Some calls) None.

Definition ToolMessage (text : string) (call_id : option string) : Message :=
  mkMessage tool text None call_id.

(** The graph state, [StateAnnotation.State]: the message history. *)
Record State := mkState { messages : list Message }.

(** ** Nodes of the graph *)

Inductive Node :=
  | START
  | END
  | agent
  | tools
  | prepare_claim_detail
  | execute_approve_payment.

Global Instance Node_eq_dec : EqDecision Node.
Proof. solve_decision. Defined.

(** The string each node is registered under. *)
Definition node_name (n : Node) : string :=
  match n with
  | START => "__start__"
  | END => "__end__"
  | agent => "agent"
  | tools => "tools"
  | prepare_claim_detail => "prepare_claim_detail"
  | execute_approve_payment => "execute_approve_payment"
  end.

(** ** Errors *)

Inductive JsError :=
  | TypeError (msg : string)
  | Error (msg : string)
  | GraphRecursionError.

Global Instance JsError_eq_dec : EqDecision JsError.
Proof. solve_decision. Defined.

(** ** The router: [shouldContinue] *)

(** What [shouldContinue] produces: the single node [END], an array with one
    target per tool call, or an exception. *)
Inductive Route :=
  | RouteEnd
  | RouteTo (targets : list Node)
  | RouteThrow (e : JsError).

Global Instance Route_eq_dec : EqDecision Route.
Proof. solve_decision. Defined.

(** The console: lines printed so far, oldest first. *)
Definition Console := list string.

(** [!x?.length] for an optional array [x]: true when the array is absent
    or empty. *)
Definition not_length {A} (x : option (list A)) : bool :=
  match x with
  | None => true
  | Some l => Nat.eqb (length l) 0
  end.

(** The callback of [tool_calls.map]: the target of one tool call.  The
    [approve_payment] branch prints a line. *)
Definition route_call (tc : ToolCall) (out : Console) : Node * Console :=
  if String.eqb (name tc) "create_or_update_claim" then
    (prepare_claim_detail, out)
  else if String.eqb (name tc) "approve_payment" then
    (execute_approve_payment,
     out ++ ["agent is trying to approve the payment"])
  else
    (tools, out).

(** [tool_calls.map(...)]: left to right, the console threaded through. *)
Fixpoint map_route_call (tcs : list ToolCall) (out : Console)
  : list Node * Console :=
  match tcs with
  | [] => ([], out)
  | tc :: rest =>
      let '(n, out1) := route_call tc out in
      let '(ns, out2) := map_route_call rest out1 in
      (n :: ns, out2)
  end.

(** [shouldContinue(state)].  [messages[messages.length - 1]] is [undefined]
    on an empty history, and calling [_getType()] on it throws. *)
Definition shouldContinue (state : State) (out : Console) : Route * Console :=
  match last (messages state) with
  | None =>
      (RouteThrow
         (TypeError "Cannot read properties of undefined (reading '_getType')"),
       out)
  | Some lastMessage =>
      if negb (bool_decide (_getType lastMessage = ai))
         || not_length (tool_calls lastMessage)
      then (RouteEnd, out)
      else if not_length (tool_calls lastMessage)
      then
        (RouteThrow
           (Error "Expected tool_calls to be an array with at least one element"),
         out)
      else
        let '(targets, out') :=
          map_route_call (default [] (tool_calls lastMessage)) out in
        (RouteTo targets, out')
  end.

(** The classification alone, without the printed lines. *)
Definition target_of (tc : ToolCall) : Node := fst (route_call tc []).

Definition route_of (state : State) : Route := fst (shouldContinue state []).

(** ** The graph wiring done by [builder] *)

(** The [addEdge] calls, in source order. *)
Definition edges : list (Node * Node) :=
  [ (START, agent);
    (tools, agent);
    (prepare_claim_detail, tools);
    (execute_approve_payment, tools) ].

(** [addConditionalEdges("agent", shouldContinue, [...])]: the node the
    router is attached to, and the targets it is declared to reach. *)
Definition conditional_source : Node := agent.

Definition conditional_ends : list Node :=
  [tools; prepare_claim_detail; execute_approve_payment; END].

(** The nodes reached from [n] by a regular edge ("always transition to
    node B after node A is done"). *)
Definition successors (n : Node) : list Node :=
  (filter (λ e, e.1 = n) edges).*2.

(** Following regular edges [k] times from a set of nodes. *)
Fixpoint follow (k : nat) (ns : list Node) : list Node :=
  match k with
  | 0 => ns
  | S k' => follow k' (ns ≫= successors)
  end.

(** The nodes that do work between two turns of the reasoner: the generic
    tool dispatcher and the two validation gates. *)
Definition workers : list Node :=
  [tools; prepare_claim_detail; execute_approve_payment].

(** ** Collaborators *)

(** A registered tool: its name and its executor, which either returns an
    output or fails with a message. *)
Record Tool := mkTool {
  tool_name : string;
  func : list (string * string) → string + string;
}.

(** What the graph is built from but [graph.ts] only imports: the model, the
    system prompt, the five tools and the rule sets of the two gates.  A
    rule set returns [None] when the action passes and [Some reason] when a
    field or a business rule fails. *)
Record Env := mkEnv {
  model : list Message → Message;
  systemSetUpMessage : string;
  userDetailsTool : Tool;
  fraudCheckTool : Tool;
  createOrUpdateClaimTool : Tool;
  approvePaymentTool : Tool;
  sendConfirmationEmailTool : Tool;
  claimDetailRules : list Message → ToolCall → option string;
  approvalRules : list Message → ToolCall → option string;
}.

Definition ALL_TOOLS (env : Env) : list Tool :=
  [ userDetailsTool env; fraudCheckTool env; createOrUpdateClaimTool env;
    approvePaymentTool env; sendConfirmationEmailTool env ].

(** What a run does besides growing the history: executor invocations and
    gate verdicts, in the order they happen. *)
Inductive Event :=
  | Invoked (t : string) (tc : ToolCall)
  | Approved (gate : Node) (tc : ToolCall)
  | Rejected (gate : Node) (tc : ToolCall) (reason : string).

Global Instance Event_eq_dec : EqDecision Event.
Proof. solve_decision. Defined.

(** The update a node returns ([{ messages: [...] }]) with the events it
    caused. *)
Definition Update : Type := list Message * list Event.

(** ** The nodes *)

(** [callModel]: the model is invoked on the system message followed by the
    history, and its answer is the update.  (The [console.log] of the state
    is not part of the update and is left out of the run model.) *)
Definition callModel (env : Env) (state : State) : Update :=
  let systemMessage := mkMessage system (systemSetUpMessage env) None None in
  let result := model env (systemMessage :: messages state) in
  ([result], []).

(** The most recent AI message of a history. *)
Definition last_ai (ms : list Message) : option Message :=
  last (filter (λ m, _getType m = ai) ms).

(** The ids of the tool calls a history already holds a result for. *)
Definition answered (ms : list Message) : list string :=
  omap tool_call_id (filter (λ m, _getType m = tool) ms).

(** A call is pending when it has no id or no result with its id yet. *)
Definition is_pending (ms : list Message) (call : ToolCall) : bool :=
  match id call with
  | None => true
  | Some i => negb (bool_decide (i ∈ answered ms))
  end.

Definition find_tool (ts : list Tool) (nm : string) : option Tool :=
  List.find (λ t, String.eqb (tool_name t) nm) ts.

(** One tool call run by the dispatcher: the executor's output, or a
    description of the failure, becomes a tool message. *)
Definition runTool (env : Env) (call : ToolCall) : Update :=
  match find_tool (ALL_TOOLS env) (name call) with
  | None => ([ToolMessage "Error: Tool not found." (id call)], [])
  | Some t =>
      match func t (args call) with
      | inl output => ([ToolMessage output (id call)], [Invoked (tool_name t) call])
      | inr failure =>
          ([ToolMessage ("Error: " +:+ failure) (id call)],
           [Invoked (tool_name t) call])
      end
  end.

(** Running a list of pieces of work in order and joining their updates. *)
Definition join (us : list Update) : Update :=
  (us ≫= fst, us ≫= snd).

(** Modelled from the spec: the generic dispatcher, [new ToolNode(ALL_TOOLS)]
    of the framework's prebuilt package (section 4.3: look up the named
    tool's executor, invoke it with the argument payload, append a
    tool-result turn holding the output or a failure description).  It works
    on the tool calls of the most recent AI message that have no result yet,
    in the order of the call list, and refuses a history without an AI
    message. *)
Definition toolNode (env : Env) (state : State) : JsError + Update :=
  match last_ai (messages state) with
  | None => inl (Error "ToolNode only accepts AIMessages as input.")
  | Some m =>
      let pending :=
        List.filter (is_pending (messages state)) (default [] (tool_calls m)) in
      inr (join (runTool env <$> pending))
  end.

(** Modelled from the spec: a validation gate (section 4.2), the contract
    shared by [validateClaimDetail] and [validateApprovalRequest], whose
    files are not part of the sources.  The gate looks at the actions of the
    latest turn that bear its name; an action that passes the rules is left
    to the dispatcher, an action that fails is answered by a synthetic
    tool-result turn that explains the failure. *)
Definition gate (g : Node) (gated : string)
    (rules : list Message → ToolCall → option string) (state : State) : Update :=
  let calls :=
    match last (messages state) with
    | Some m => filter (λ c, name c = gated) (default [] (tool_calls m))
    | None => []
    end in
  join ((λ c, match rules (messages state) c with
              | None => ([], [Approved g c])
              | Some reason => ([ToolMessage reason (id c)], [Rejected g c reason])
              end) <$> calls).

Definition validateClaimDetail (env : Env) : State → Update :=
  gate prepare_claim_detail "create_or_update_claim" (claimDetailRules env).

Definition validateApprovalRequest (env : Env) : State → Update :=
  gate execute_approve_payment "approve_payment" (approvalRules env).

(** [addNode]: the function registered under each node name. *)
Definition run_node (env : Env) (n : Node) (state : State) : JsError + Update :=
  match n with
  | agent => inr (callModel env state)
  | tools => toolNode env state
  | prepare_claim_detail => inr (validateClaimDetail env state)
  | execute_approve_payment => inr (validateApprovalRequest env state)
  | START | END => inr ([], [])
  end.

(** ** The engine *)

(** Where control goes after node [n] has produced [u] on [state].  The
    router is attached to [agent] and reads the history with the agent's own
    answer appended; every other node follows its regular edges. *)
Definition next_nodes (n : Node) (state : State) (u : Update)
  : JsError + list Node :=
  if decide (n = conditional_source) then
    match route_of (mkState (messages state ++ u.1)) with
    | RouteEnd => inr []
    | RouteTo targets => inr targets
    | RouteThrow e => inl e
    end
  else inr (successors n).

(** One node of a superstep: its update and the nodes it triggers. *)
Definition task (env : Env) (state : State) (n : Node)
  : JsError + (Update * list Node) :=
  match run_node env n state with
  | inl e => inl e
  | inr u =>
      match next_nodes n state u with
      | inl e => inl e
      | inr ns => inr (u, ns)
      end
  end.

(** Every active node runs on the same snapshot of the state; the first
    exception aborts the step. *)
Fixpoint tasks (env : Env) (state : State) (active : list Node)
  : JsError + (Update * list Node) :=
  match active with
  | [] => inr (([], []), [])
  | n :: rest =>
      match task env state n with
      | inl e => inl e
      | inr (u, ns) =>
          match tasks env state rest with
          | inl e => inl e
          | inr (us, nss) => inr ((u.1 ++ us.1, u.2 ++ us.2), ns ++ nss)
          end
      end
  end.

(** The outcome of a run: the error that stopped it, if any, the state after
    the last completed superstep, the events, and the supersteps executed. *)
Record Run := mkRun {
  failure : option JsError;
  final : State;
  trace : list Event;
  steps : nat;
}.

(** Modelled from the spec: the graph engine behind [builder.compile(...)]
    (section 4.4), which belongs to the framework.  It runs superstep after
    superstep: the updates of the active nodes are appended to the history
    (the reducer of [StateAnnotation], append-only by section 3), the nodes
    they trigger become active, a node triggered twice runs once.  The run
    finishes when no node is active; it fails with [GraphRecursionError]
    (the spec's StepBoundExceeded) when [limit] supersteps have been
    executed and nodes are still active. *)
Fixpoint pregel (env : Env) (limit : nat) (active : list Node)
    (state : State) (tr : list Event) (n : nat) : Run :=
  match active with
  | [] => mkRun None state tr n
  | _ :: _ =>
      match limit with
      | 0 => mkRun (Some GraphRecursionError) state tr n
      | S limit' =>
          match tasks env state active with
          | inl e => mkRun (Some e) state tr n
          | inr (u, next) =>
              pregel env limit' (remove_dups next)
                (mkState (messages state ++ u.1)) (tr ++ u.2) (S n)
          end
      end
  end.

(** The checkpointer, [new MemorySaver()]: the state of every thread. *)
Abbreviation Checkpoints := (gmap string State).

(** [graph.invoke(input, { recursionLimit, configurable: { thread_id } })]:
    the input is appended to the checkpointed history of the thread, the
    graph runs from [START], and the thread's checkpoint is replaced. *)
Definition invoke (env : Env) (saver : Checkpoints) (thread_id : string)
    (input : list Message) (recursionLimit : nat) : Run * Checkpoints :=
  let state0 :=
    mkState (messages (default (mkState []) (saver !! thread_id)) ++ input) in
  let r := pregel env recursionLimit (successors START) state0 [] 0 in
  (r, <[thread_id := final r]> saver).

(** ** The entry point, [app.get('/api/chat')] *)

(** The query string of a request: the [message] parameter the handler
    reads, and whatever other parameters the client sent. *)
Record Request := mkRequest {
  message : string;
  params : gmap string string;
}.

(** [const config = { configurable: { thread_id: "thread1" } }]. *)
Definition config_thread_id : string := "thread1".

(** [{ recursionLimit: 15, ...config }]. *)
Definition recursionLimit : nat := 15.

(** The handler: the run the request causes, and the JSON field [message]
    of the response when the run succeeds. *)
Definition chat_run (env : Env) (saver : Checkpoints) (req : Request)
  : Run * Checkpoints :=
  invoke env saver config_thread_id [HumanMessage (message req)] recursionLimit.

Definition chat (env : Env) (saver : Checkpoints) (req : Request)
  : (JsError + string) * Checkpoints :=
  let '(result, saver') := chat_run env saver req in
  match failure result with
  | Some e => (inl e, saver')
  | None =>
      match last (messages (final result)) with
      | Some m => (inr (content m), saver')
      | None =>
          (inl (TypeError "Cannot read properties of undefined (reading 'content')"),
           saver')
      end
  end.

(** ** Notions used to state the properties *)

(** The turn the reasoner produces on a history. *)
Definition reasoner_turn (env : Env) (history : list Message) : Message :=
  model env (mkMessage system (systemSetUpMessage env) None None :: history).

(** The history a request starts from: the checkpoint of the thread, then
    the new user message. *)
Definition chat_input (saver : Checkpoints) (req : Request) : list Message :=
  messages (default (mkState []) (saver !! config_thread_id))
  ++ [HumanMessage (message req)].

(** A reasoner that proposes at least one action on every turn. *)
Definition always_proposes (env : Env) : Prop :=
  ∀ history,
    _getType (model env history) = ai
    ∧ not_length (tool_calls (model env history)) = false.

(** ** The rest of the two files *)

(** [route(state)], the routing function the template exports next to
    [shouldContinue]; the builder does not attach it to any node. *)
Definition route (state : State) : Node :=
  if Nat.ltb 0 (length (messages state)) then END else agent.

(** Every node control can move to from [n]: along a regular edge, or, from
    the node the router is attached to, to one of the declared ends. *)
Definition out_edges (n : Node) : list Node :=
  successors n
  ++ (if decide (n = conditional_source) then conditional_ends else []).

(** The nodes reached from [n] in at most [k] moves. *)
Fixpoint reach (k : nat) (n : Node) : list Node :=
  match k with
  | 0 => [n]
  | S k' => n :: (out_edges n ≫= reach k')
  end.

(** What the handler does with the result of the run:
    [result.messages.forEach(msg => console.log(msg.content))], then the
    JSON response built from [result.messages[result.messages.length - 1]]. *)
Definition respond (result : State) (out : Console)
  : (JsError + string) * Console :=
  let out' := out ++ (content <$> messages result) in
  match last (messages result) with
  | Some m => (inr (content m), out')
  | None =>
      (inl (TypeError "Cannot read properties of undefined (reading 'content')"),
       out')
  end.

(** The line the router prints for a payment approval. *)
Definition approval_line : string := "agent is trying to approve the payment".

(** ** Supersteps without a bound *)







(** ** Sample collaborators

    Concrete tools, models and rule sets used to evaluate the graph.  The
    router tests the names [create_or_update_claim] and [approve_payment];
    the other tool names are sample names. *)

Definition echo (label : string) : Tool :=
  mkTool label (λ _, inl (label +:+ " ok")).

Definition accept_all : list Message → ToolCall → option string :=
  λ _ _, None.

Definition reject_all (reason : string) : list Message → ToolCall → option string :=
  λ _ _, Some reason.

Definition sample_env (m : list Message → Message)
    (claim_rules : list Message → ToolCall → option string) : Env :=
  mkEnv m "You are a claims assistant."
    (echo "get_user_details") (echo "fraud_check")
    (echo "create_or_update_claim") (echo "approve_payment")
    (echo "send_confirmation_email")
    claim_rules accept_all.

Definition has_ai (ms : list Message) : bool :=
  bool_decide (last_ai ms ≠ None).

(** A model that proposes [calls] once, then answers [text]. *)
Definition propose_once (calls : list ToolCall) (text : string)
  : list Message → Message :=
  λ history, if has_ai history then AIMessage text [] else AIMessage "" calls.

(** A model that answers [text] and proposes nothing. *)
Definition plain_answer (text : string) : list Message → Message :=
  λ _, AIMessage text [].



Definition claim_call : ToolCall :=
  mkToolCall "create_or_update_claim"
    [("claimId", "123"); ("description", "car accident")] (Some "call_1").

Definition fraud_call : ToolCall :=
  mkToolCall "fraud_check" [("claimId", "123")] (Some "call_2").

Definition payment_call : ToolCall :=
  mkToolCall "approve_payment" [("amount", "5000")] (Some "call_3").

Definition unknown_call : ToolCall :=
  mkToolCall "transfer_funds" [("amount", "5000")] (Some "call_4").

(** * Properties *)

(** ** The router *)

Lemma route_call_fst (tc : ToolCall) (out : Console) :
  (route_call tc out).1 = target_of tc.
Proof.
  unfold target_of, route_call.
  destruct (String.eqb _ _); [done|]. by destruct (String.eqb _ _).
Qed.

Lemma map_route_call_fst (tcs : list ToolCall) (out : Console) :
  (map_route_call tcs out).1 = target_of <$> tcs.
Proof.
  revert out. induction tcs as [|tc rest IH]; intros out; simpl; [done|].
  pose proof (route_call_fst tc out) as Hc.
  destruct (route_call tc out) as [n out1]. simpl in Hc. subst n.
  specialize (IH out1). destruct (map_route_call rest out1) as [ns out2].
  simpl in *. by rewrite IH.
Qed.

(** The classification of a state does not depend on the console. *)
Lemma shouldContinue_fst (state : State) (out : Console) :
  (shouldContinue state out).1 = route_of state.
Proof.
  unfold route_of, shouldContinue.
  destruct (last (messages state)) as [m|]; [|done].
  destruct (negb _ || _); [done|].
  destruct (not_length _); [done|].
  pose proof (map_route_call_fst (default [] (tool_calls m)) out) as H1.
  pose proof (map_route_call_fst (default [] (tool_calls m)) []) as H2.
  destruct (map_route_call _ out), (map_route_call _ []).
  simpl in *. congruence.
Qed.

(** The router on a turn that carries tool calls. *)
Lemma route_of_calls (state : State) (m : Message) (calls : list ToolCall) :
  last (messages state) = Some m →
  _getType m = ai →
  tool_calls m = Some calls →
  calls ≠ [] →
  route_of state = RouteTo (target_of <$> calls).
Proof.
  intros Hl Ht Hc Hne. unfold route_of, shouldContinue. rewrite Hl, Ht, Hc.
  rewrite bool_decide_true by done. simpl.
  destruct calls as [|c cs]; [done|]. simpl length. simpl Nat.eqb. cbv iota.
  pose proof (map_route_call_fst (c :: cs) []) as H.
  destruct (map_route_call (c :: cs) []). simpl in *. by subst.
Qed.

(** The router on a turn that carries no tool call. *)
Lemma route_of_no_calls (state : State) (m : Message) :
  last (messages state) = Some m →
  _getType m ≠ ai ∨ not_length (tool_calls m) = true →
  route_of state = RouteEnd.
Proof.
  intros Hl H. unfold route_of, shouldContinue. rewrite Hl.
  destruct H as [H|H].
  - by rewrite bool_decide_false.
  - rewrite H. by rewrite orb_true_r.
Qed.

Lemma target_of_claim (tc : ToolCall) :
  name tc = "create_or_update_claim" → target_of tc = prepare_claim_detail.
Proof. intros H. unfold target_of, route_call. by rewrite H. Qed.

Lemma target_of_payment (tc : ToolCall) :
  name tc = "approve_payment" → target_of tc = execute_approve_payment.
Proof. intros H. unfold target_of, route_call. by rewrite H. Qed.

Lemma target_of_other (tc : ToolCall) :
  name tc ≠ "create_or_update_claim" →
  name tc ≠ "approve_payment" →
  target_of tc = tools.
Proof.
  intros H1 H2. unfold target_of, route_call.
  destruct (String.eqb_spec (name tc) "create_or_update_claim"); [done|].
  by destruct (String.eqb_spec (name tc) "approve_payment").
Qed.

(** Every target the router computes is one of the ends declared with the
    conditional edge. *)
Lemma target_of_declared (tc : ToolCall) : target_of tc ∈ conditional_ends.
Proof.
  unfold target_of, route_call, conditional_ends.
  destruct (String.eqb _ _); [set_solver|].
  destruct (String.eqb _ _); set_solver.
Qed.

(** C1: on an assistant turn that carries one or more proposed actions the
    router yields one target per action, in the order of the actions, and
    the target of an action is decided by its name alone:
    [create_or_update_claim] goes to the claim-detail gate,
    [approve_payment] to the approval-rule gate, any other name to the
    generic tool dispatcher. *)
Theorem C1_one_target_per_action
    (state : State) (m : Message) (tc : ToolCall) (tcs : list ToolCall)
    (out : Console) :
  last (messages state) = Some m →
  _getType m = ai →
  tool_calls m = Some (tc :: tcs) →
  ∃ targets,
    (shouldContinue state out).1 = RouteTo targets
    ∧ length targets = length (tc :: tcs)
    ∧ ∀ i c, (tc :: tcs) !! i = Some c →
        ∃ n, targets !! i = Some n
          ∧ (name c = "create_or_update_claim" → n = prepare_claim_detail)
          ∧ (name c = "approve_payment" → n = execute_approve_payment)
          ∧ (name c ≠ "create_or_update_claim" → name c ≠ "approve_payment" →
             n = tools).
Proof.
  intros Hl Ht Hc. exists (target_of <$> (tc :: tcs)).
  rewrite shouldContinue_fst. split; [|split].
  - by apply (route_of_calls state m).
  - by rewrite length_fmap.
  - intros i c Hi. exists (target_of c). split.
    + by rewrite list_lookup_fmap, Hi.
    + split; [apply target_of_claim|split; [apply target_of_payment|apply target_of_other]].
Qed.

Lemma C1_one_target_per_action_witness :
  ∃ targets,
    (shouldContinue
       (mkState [HumanMessage "hi";
                 AIMessage "" [fraud_call; claim_call; payment_call]]) []).1
    = RouteTo targets
    ∧ length targets = 3
    ∧ ∀ i c, [fraud_call; claim_call; payment_call] !! i = Some c →
        ∃ n, targets !! i = Some n
          ∧ (name c = "create_or_update_claim" → n = prepare_claim_detail)
          ∧ (name c = "approve_payment" → n = execute_approve_payment)
          ∧ (name c ≠ "create_or_update_claim" → name c ≠ "approve_payment" →
             n = tools).
Proof.
  exact (C1_one_target_per_action
           (mkState [HumanMessage "hi";
                     AIMessage "" [fraud_call; claim_call; payment_call]])
           (AIMessage "" [fraud_call; claim_call; payment_call])
           fraud_call [claim_call; payment_call] []
           eq_refl eq_refl eq_refl).
Defined.

(** The router never reaches its own [throw]: the guard before it has
    already returned [END] for every turn without tool calls. *)
Lemma route_of_never_Error (state : State) (msg : string) :
  route_of state ≠ RouteThrow (Error msg).
Proof.
  unfold route_of, shouldContinue.
  destruct (last (messages state)) as [m|]; [|done].
  destruct (negb _) eqn:Ht; simpl; [done|].
  destruct (not_length (tool_calls m)); [done|].
  by destruct (map_route_call _ _).
Qed.

(** C5 (as amended): the router raises nothing for an action whose name it
    does not know.  On an assistant turn with tool calls the router throws
    no error at all, and every action named neither
    [create_or_update_claim] nor [approve_payment], registered or not, gets
    the generic tool dispatcher as its target. *)
Theorem C5_unrecognized_name_goes_to_tools
    (state : State) (m : Message) (calls : list ToolCall) (out : Console) :
  last (messages state) = Some m →
  _getType m = ai →
  tool_calls m = Some calls →
  calls ≠ [] →
  (∀ e, (shouldContinue state out).1 ≠ RouteThrow e)
  ∧ ∃ targets,
      (shouldContinue state out).1 = RouteTo targets
      ∧ ∀ i c, calls !! i = Some c →
          name c ≠ "create_or_update_claim" →
          name c ≠ "approve_payment" →
          targets !! i = Some tools.
Proof.
  intros Hl Ht Hc Hne. rewrite shouldContinue_fst.
  rewrite (route_of_calls state m calls) by done. split; [done|].
  eexists; split; [done|]. intros i c Hi H1 H2.
  rewrite list_lookup_fmap, Hi. simpl. by rewrite target_of_other.
Qed.

Lemma C5_unrecognized_name_goes_to_tools_witness :
  (∀ e, (shouldContinue (mkState [AIMessage "" [unknown_call]]) []).1
        ≠ RouteThrow e)
  ∧ ∃ targets,
      (shouldContinue (mkState [AIMessage "" [unknown_call]]) []).1
      = RouteTo targets
      ∧ ∀ i c, [unknown_call] !! i = Some c →
          name c ≠ "create_or_update_claim" →
          name c ≠ "approve_payment" →
          targets !! i = Some tools.
Proof.
  refine (C5_unrecognized_name_goes_to_tools
            (mkState [AIMessage "" [unknown_call]])
            (AIMessage "" [unknown_call]) [unknown_call] []
            eq_refl eq_refl eq_refl _).
  discriminate.
Defined.

(** C5 (as stated) fails: [transfer_funds] is neither a gated name nor the
    name of a registered tool, yet the router raises no error and routes it
    to the dispatcher, and the run that proposed it ends normally with the
    reasoner's next answer. *)
Lemma C5_unknown_action_counterexample :
  let env := sample_env (propose_once [unknown_call] "done") accept_all in
  let state := mkState [HumanMessage "pay"; AIMessage "" [unknown_call]] in
  find_tool (ALL_TOOLS env) (name unknown_call) = None
  ∧ name unknown_call ≠ "create_or_update_claim"
  ∧ name unknown_call ≠ "approve_payment"
  ∧ (shouldContinue state []).1 = RouteTo [tools]
  ∧ ¬ (∃ e, (shouldContinue state []).1 = RouteThrow e)
  ∧ (chat env ∅ (mkRequest "pay" ∅)).1 = inr "done".
Proof.
  cbv zeta. split; [reflexivity|]. split; [discriminate|].
  split; [discriminate|]. split; [reflexivity|]. split.
  - intros [e He]. vm_compute in He. discriminate.
  - vm_compute. reflexivity.
Qed.

(** C6 (as amended): a last turn that is not an assistant turn, or whose
    [tool_calls] field is absent or empty, makes the router return [END];
    the router's own [throw] is unreachable, so no state makes it raise
    that error. *)
Theorem C6_no_tool_calls_ends_silently
    (state : State) (m : Message) (out : Console) :
  last (messages state) = Some m →
  _getType m ≠ ai ∨ tool_calls m = None ∨ tool_calls m = Some [] →
  (shouldContinue state out).1 = RouteEnd
  ∧ ∀ (state' : State) (out' : Console) (msg : string),
      (shouldContinue state' out').1 ≠ RouteThrow (Error msg).
Proof.
  intros Hl H. split.
  - rewrite shouldContinue_fst. apply (route_of_no_calls state m Hl).
    destruct H as [H|[H|H]]; [by left|right; by rewrite H..].
  - intros state' out' msg. rewrite shouldContinue_fst.
    apply route_of_never_Error.
Qed.

Lemma C6_no_tool_calls_ends_silently_witness :
  (shouldContinue (mkState [HumanMessage "hi"; mkMessage ai "" None None]) []).1
  = RouteEnd
  ∧ ∀ (state' : State) (out' : Console) (msg : string),
      (shouldContinue state' out').1 ≠ RouteThrow (Error msg).
Proof.
  refine (C6_no_tool_calls_ends_silently
            (mkState [HumanMessage "hi"; mkMessage ai "" None None])
            (mkMessage ai "" None None) [] eq_refl _).
  right; left; reflexivity.
Defined.

(** C6 (as stated) fails: an assistant turn whose [tool_calls] field is
    missing altogether is routed to [END] like a plain answer; nothing is
    raised. *)
Lemma C6_malformed_turn_counterexample :
  let state := mkState [HumanMessage "hi"; mkMessage ai "" None None] in
  (shouldContinue state []).1 = RouteEnd
  ∧ ¬ (∃ e, (shouldContinue state []).1 = RouteThrow e).
Proof.
  cbv zeta. split; [reflexivity|].
  intros [e He]. vm_compute in He. discriminate.
Qed.

(** C9: the routing decision is deterministic and repeatable.  Whatever has
    been printed before, the classification of a state is the same, and
    routing the same state a second time, after the first routing has
    printed its lines, gives the same classification again. *)
Theorem C9_routing_repeatable (state : State) (out1 out2 : Console) :
  let first := shouldContinue state out1 in
  let second := shouldContinue state first.2 in
  first.1 = second.1
  ∧ first.1 = (shouldContinue state out2).1.
Proof.
  cbv zeta. by rewrite !shouldContinue_fst.
Qed.

(** C10: the routing decision reads the last message only.  Two states
    whose last messages are equal (both absent included) get the same
    classification, whatever the earlier history and the console. *)
Theorem C10_routing_reads_last_message
    (state1 state2 : State) (out1 out2 : Console) :
  last (messages state1) = last (messages state2) →
  (shouldContinue state1 out1).1 = (shouldContinue state2 out2).1.
Proof.
  intros H. rewrite !shouldContinue_fst. unfold route_of, shouldContinue.
  by rewrite H.
Qed.

Lemma C10_routing_reads_last_message_witness :
  (shouldContinue
     (mkState [HumanMessage "a"; AIMessage "" [claim_call; payment_call]])
     []).1
  = (shouldContinue
       (mkState [HumanMessage "b"; AIMessage "" [fraud_call];
                 ToolMessage "ok" (Some "call_2");
                 AIMessage "" [claim_call; payment_call]])
       ["earlier line"]).1.
Proof.
  exact (C10_routing_reads_last_message
           (mkState [HumanMessage "a"; AIMessage "" [claim_call; payment_call]])
           (mkState [HumanMessage "b"; AIMessage "" [fraud_call];
                     ToolMessage "ok" (Some "call_2");
                     AIMessage "" [claim_call; payment_call]])
           [] ["earlier line"] eq_refl).
Defined.

(** ** The wiring *)

Lemma END_not_in (l : list Node) : bool_decide (END ∉ l) = true → END ∉ l.
Proof. apply bool_decide_eq_true_1. Qed.

Lemma successors_tools : successors tools = [agent].
Proof. reflexivity. Qed.

Lemma successors_gate (n : Node) :
  n = prepare_claim_detail ∨ n = execute_approve_payment →
  successors n = [tools].
Proof. by intros [->| ->]. Qed.

Lemma workers_cases (n : Node) :
  n ∈ workers →
  n = tools ∨ n = prepare_claim_detail ∨ n = execute_approve_payment.
Proof.
  unfold workers. rewrite !elem_of_cons, elem_of_nil. tauto.
Qed.

(** C4: every path that does not terminate loops back to the reasoner.
    The dispatcher and the two gates are left by regular edges only, so
    where control goes after them does not depend on what they produced
    (success or failure); following those edges from any of them reaches
    [agent], and nothing but [agent], within two steps, and [END] is met
    nowhere on the way: no gate has an edge to termination. *)
Theorem C4_workers_loop_back_to_agent (n : Node) :
  n ∈ workers →
  n ≠ conditional_source
  ∧ (END ∉ successors n)
  ∧ (∀ state u, next_nodes n state u = inr (successors n))
  ∧ ∃ k : nat, (1 ≤ k)%nat ∧ (k ≤ 2)%nat
      ∧ follow k [n] = [agent]
      ∧ ∀ j : nat, (j ≤ k)%nat → END ∉ follow j [n].
Proof.
  intros Hn. apply workers_cases in Hn.
  pose proof END_not_in as Hend.
  destruct Hn as [->|[->| ->]].
  - split; [done|]. split; [by apply Hend|]. split; [done|].
    exists 1. split; [lia|]. split; [lia|]. split; [done|].
    intros j Hj. assert (j = 0 ∨ j = 1) as [->| ->] by lia; by apply Hend.
  - split; [done|]. split; [by apply Hend|]. split; [done|].
    exists 2. split; [lia|]. split; [lia|]. split; [done|].
    intros j Hj. assert (j = 0 ∨ j = 1 ∨ j = 2) as [->|[->| ->]] by lia;
      by apply Hend.
  - split; [done|]. split; [by apply Hend|]. split; [done|].
    exists 2. split; [lia|]. split; [lia|]. split; [done|].
    intros j Hj. assert (j = 0 ∨ j = 1 ∨ j = 2) as [->|[->| ->]] by lia;
      by apply Hend.
Qed.

Lemma C4_workers_loop_back_to_agent_witness :
  prepare_claim_detail ≠ conditional_source
  ∧ (END ∉ successors prepare_claim_detail)
  ∧ (∀ state u,
       next_nodes prepare_claim_detail state u
       = inr (successors prepare_claim_detail))
  ∧ ∃ k : nat, (1 ≤ k)%nat ∧ (k ≤ 2)%nat
      ∧ follow k [prepare_claim_detail] = [agent]
      ∧ ∀ j : nat, (j ≤ k)%nat → END ∉ follow j [prepare_claim_detail].
Proof.
  apply (C4_workers_loop_back_to_agent prepare_claim_detail).
  unfold workers. apply list_elem_of_further, list_elem_of_here.
Defined.

(** ** Runs *)

Lemma target_of_not_END (tc : ToolCall) : target_of tc ≠ END.
Proof.
  unfold target_of, route_call.
  destruct (String.eqb _ _); [done|]. by destruct (String.eqb _ _).
Qed.

(** The targets the router returns never contain [END]. *)
Lemma route_of_targets_not_END (state : State) (targets : list Node) :
  route_of state = RouteTo targets → END ∉ targets.
Proof.
  unfold route_of, shouldContinue.
  destruct (last (messages state)) as [m|]; [|done].
  destruct (negb _ || _); [done|].
  destruct (not_length _) eqn:Hn; [done|].
  pose proof (map_route_call_fst (default [] (tool_calls m)) []) as H.
  destruct (map_route_call _ _) as [ts out']. simpl in *.
  intros [= <-]. subst ts. intros Hin.
  apply list_elem_of_fmap in Hin as (c & Hc & _).
  by apply (target_of_not_END c).
Qed.

(** The targets the router returns are never empty. *)
Lemma route_of_targets_nonempty (state : State) : route_of state ≠ RouteTo [].
Proof.
  unfold route_of, shouldContinue.
  destruct (last (messages state)) as [m|]; [|done].
  destruct (negb _ || _); [done|].
  destruct (tool_calls m) as [[|c cs]|]; simpl; [done| |done].
  destruct (route_call c []), (map_route_call cs _). done.
Qed.

(** What one task triggers: never [END]; and nothing at all only when the
    task is the reasoner and the router has answered [END] on its turn. *)
Lemma task_next (env : Env) (state : State) (n : Node) (u : Update)
    (ns : list Node) :
  task env state n = inr (u, ns) →
  n ≠ END →
  (END ∉ ns)
  ∧ (ns = [] →
     n = agent
     ∧ u = ([reasoner_turn env (messages state)], [])
     ∧ route_of (mkState (messages state
                            ++ [reasoner_turn env (messages state)]))
       = RouteEnd).
Proof.
  unfold task. intros H Hn.
  destruct (run_node env n state) as [e|u'] eqn:Hrun; [done|].
  destruct (next_nodes n state u') as [e|ns'] eqn:Hnext; [done|].
  injection H as -> ->. unfold next_nodes in Hnext.
  destruct (decide (n = conditional_source)) as [->|Hne].
  - simpl in Hrun. injection Hrun as <-. simpl in Hnext.
    fold (reasoner_turn env (messages state)) in Hnext.
    destruct (route_of _) as [|targets|e] eqn:Hr; [| |done].
    + injection Hnext as <-. split; [apply not_elem_of_nil|]. done.
    + injection Hnext as <-. split.
      * by eapply route_of_targets_not_END.
      * intros ->. by apply route_of_targets_nonempty in Hr.
  - injection Hnext as <-.
    destruct n; try done; (split; [|done]); by apply END_not_in.
Qed.

(** The same for a whole superstep without repeated nodes. *)
Lemma tasks_next (env : Env) (state : State) (active : list Node)
    (u : Update) (next : list Node) :
  tasks env state active = inr (u, next) →
  END ∉ active →
  (END ∉ next)
  ∧ (next = [] → NoDup active → active ≠ [] →
     active = [agent]
     ∧ u = ([reasoner_turn env (messages state)], [])
     ∧ route_of (mkState (messages state
                            ++ [reasoner_turn env (messages state)]))
       = RouteEnd).
Proof.
  revert u next. induction active as [|n rest IH]; intros u next H Hend.
  - simpl in H. injection H as <- <-. split; [apply not_elem_of_nil|done].
  - simpl in H.
    destruct (task env state n) as [e|[u1 ns]] eqn:Ht; [done|].
    destruct (tasks env state rest) as [e|[us nss]] eqn:Hts; [done|].
    injection H as <- <-.
    apply not_elem_of_cons in Hend as [Hn Hrest].
    destruct (task_next env state n u1 ns Ht) as [H1 H2]; [done|].
    destruct (IH us nss eq_refl Hrest) as [H3 H4].
    split.
    + rewrite elem_of_app. tauto.
    + intros Happ Hnd _. apply app_eq_nil in Happ as [-> ->].
      destruct (H2 eq_refl) as (-> & -> & Hr).
      apply NoDup_cons in Hnd as [Hnotin Hnd].
      destruct rest as [|n' rest'].
      * simpl in Hts. injection Hts as <-. done.
      * destruct (H4 eq_refl Hnd) as ([= -> ->] & _); [done|].
        exfalso. apply Hnotin. apply list_elem_of_here.
Qed.

(** A run that finishes has just seen the reasoner, alone, produce a turn
    on which the router answered [END]; that turn ends the history. *)
Lemma pregel_finished (env : Env) (limit : nat) :
  ∀ (active : list Node) (state : State) (tr : list Event) (n : nat),
    NoDup active → END ∉ active → active ≠ [] →
    failure (pregel env limit active state tr n) = None →
    ∃ prior,
      messages (final (pregel env limit active state tr n))
      = prior ++ [reasoner_turn env prior]
      ∧ route_of (mkState (prior ++ [reasoner_turn env prior])) = RouteEnd.
Proof.
  induction limit as [|limit IH]; intros active state tr n Hnd Hend Hne Hf.
  - destruct active; [done|]. simpl in Hf. done.
  - destruct active as [|a rest]; [done|]. cbn [pregel] in *.
    destruct (tasks env state (a :: rest)) as [e|[u next]] eqn:Ht; [done|].
    destruct (tasks_next env state (a :: rest) u next Ht Hend) as [H1 H2].
    destruct (remove_dups next) as [|b next'] eqn:Hrd.
    + assert (next = []) as ->.
      { destruct next as [|x xs]; [done|].
        assert (x ∈ remove_dups (x :: xs)) as Hx
          by (apply elem_of_remove_dups, list_elem_of_here).
        rewrite Hrd in Hx. by apply elem_of_nil in Hx. }
      destruct (H2 eq_refl Hnd Hne) as (_ & -> & Hr).
      destruct limit; simpl; eauto.
    + rewrite <- Hrd in *. apply IH; [apply NoDup_remove_dups| |by rewrite Hrd|done].
      by rewrite elem_of_remove_dups.
Qed.

(** When the reasoner runs alone and its turn makes the router answer
    [END], the run finishes there, with that turn appended. *)
Lemma pregel_agent_end (env : Env) (limit : nat) (state : State)
    (tr : list Event) (n : nat) :
  route_of (mkState (messages state ++ [reasoner_turn env (messages state)]))
  = RouteEnd →
  pregel env (S limit) [agent] state tr n
  = mkRun None
      (mkState (messages state ++ [reasoner_turn env (messages state)]))
      tr (S n).
Proof.
  intros Hr. cbn [pregel tasks]. unfold task. simpl run_node.
  unfold next_nodes. simpl decide. cbv iota.
  unfold callModel. simpl fst. fold (reasoner_turn env (messages state)).
  rewrite Hr. simpl. rewrite app_nil_r. by destruct limit.
Qed.

(** A request that finishes returns the content of the reasoner's final
    turn. *)
Lemma chat_finished (env : Env) (saver : Checkpoints) (req : Request) :
  failure (chat_run env saver req).1 = None →
  ∃ prior,
    messages (final (chat_run env saver req).1)
    = prior ++ [reasoner_turn env prior]
    ∧ route_of (mkState (prior ++ [reasoner_turn env prior])) = RouteEnd
    ∧ (chat env saver req).1 = inr (content (reasoner_turn env prior)).
Proof.
  intros Hf. unfold chat. unfold chat_run, invoke in *.
  fold (chat_input saver req) in *.
  change (successors START) with [agent] in *.
  set (r := pregel env recursionLimit [agent]
              (mkState (chat_input saver req)) [] 0) in *.
  simpl in Hf. simpl.
  destruct (pregel_finished env recursionLimit [agent]
              (mkState (chat_input saver req)) [] 0) as (prior & Hfin & Hr).
  - apply NoDup_singleton.
  - by apply END_not_in.
  - done.
  - exact Hf.
  - exists prior. fold r in Hfin. by rewrite Hf, Hfin, last_snoc.
Qed.

(** What holds of a turn with zero proposed actions: the router answers
    [END] on it; when the reasoner is the only node of its superstep, the
    engine finishes right there with the turn appended to the history; and
    whenever a request finishes without failure, the text it returns is the
    content, unchanged, of the reasoner's final turn, the one on which the
    router answered [END]. *)
Lemma zero_actions_end_the_run_alone
    (env : Env) (saver : Checkpoints) (req : Request) :
  (∀ state turn out,
     last (messages state) = Some turn →
     tool_calls turn = None ∨ tool_calls turn = Some [] →
     (shouldContinue state out).1 = RouteEnd)
  ∧ (∀ limit state tr n,
       let turn := reasoner_turn env (messages state) in
       tool_calls turn = None ∨ tool_calls turn = Some [] →
       pregel env (S limit) [agent] state tr n
       = mkRun None (mkState (messages state ++ [turn])) tr (S n))
  ∧ (let turn := reasoner_turn env (chat_input saver req) in
     tool_calls turn = None ∨ tool_calls turn = Some [] →
     (chat env saver req).1 = inr (content turn))
  ∧ (failure (chat_run env saver req).1 = None →
     ∃ prior,
       let turn := reasoner_turn env prior in
       messages (final (chat_run env saver req).1) = prior ++ [turn]
       ∧ (shouldContinue (mkState (prior ++ [turn])) []).1 = RouteEnd
       ∧ (chat env saver req).1 = inr (content turn)).
Proof.
  assert (Hzero : ∀ state turn,
            last (messages state) = Some turn →
            tool_calls turn = None ∨ tool_calls turn = Some [] →
            route_of state = RouteEnd).
  { intros state turn Hl H. apply (route_of_no_calls state turn Hl).
    right. by destruct H as [-> | ->]. }
  split; [|split; [|split]].
  - intros state turn out Hl H. rewrite shouldContinue_fst. eauto.
  - intros limit state tr n turn H. apply pregel_agent_end.
    apply (Hzero _ turn); [apply last_snoc|done].
  - intros turn H. unfold chat, chat_run, invoke.
    fold (chat_input saver req). change (successors START) with [agent].
    rewrite (pregel_agent_end env 14 (mkState (chat_input saver req))).
    + simpl. by rewrite last_snoc.
    + apply (Hzero _ turn); [apply last_snoc|done].
  - intros Hf. destruct (chat_finished env saver req Hf) as (prior & H1 & H2 & H3).
    exists prior. cbv zeta. by rewrite shouldContinue_fst.
Qed.

Example plain_answer_is_returned :
  let env := sample_env (plain_answer "Your claim 123 is registered.")
               accept_all in
  (chat env ∅ (mkRequest "I was in a car accident" ∅)).1
  = inr "Your claim 123 is registered.".
Proof.
  cbv zeta.
  pose proof (zero_actions_end_the_run_alone
                (sample_env (plain_answer "Your claim 123 is registered.")
                   accept_all)
                ∅ (mkRequest "I was in a car accident" ∅)) as (_ & _ & H & _).
  rewrite H; [reflexivity|]. right. reflexivity.
Qed.


(** ** The step bound *)



Lemma last_ai_app (ms extra : list Message) :
  last_ai ms ≠ None → last_ai (ms ++ extra) ≠ None.
Proof.
  unfold last_ai. rewrite filter_app, !last_None.
  intros H Happ. by apply app_eq_nil in Happ as [? _].
Qed.

Lemma last_ai_snoc (ms : list Message) (m : Message) :
  _getType m = ai → last_ai (ms ++ [m]) ≠ None.
Proof.
  intros Hm. unfold last_ai. rewrite filter_app, last_None.
  rewrite (filter_cons_True _ m []) by done.
  intros Happ. by apply app_eq_nil in Happ as [_ ?].
Qed.

(** With such a reasoner every task triggers something, provided the
    dispatcher has an AI message to work on. *)
Lemma task_progress (env : Env) (state : State) (n : Node) :
  always_proposes env →
  n ≠ END →
  (n = tools → last_ai (messages state) ≠ None) →
  ∃ u ns,
    task env state n = inr (u, ns)
    ∧ ns ≠ []
    ∧ (n = agent → last_ai (messages state ++ u.1) ≠ None).
Proof.
  intros Hm Hn Hai. unfold task. destruct n; try done.
  - eexists _, _. split; [reflexivity|]. split; done.
  - simpl run_node. unfold next_nodes. simpl decide. cbv iota.
    unfold callModel. simpl fst. fold (reasoner_turn env (messages state)).
    destruct (Hm (mkMessage system (systemSetUpMessage env) None None
                    :: messages state)) as [Ht Hc].
    fold (reasoner_turn env (messages state)) in Ht, Hc.
    destruct (tool_calls (reasoner_turn env (messages state)))
      as [[|c cs]|] eqn:Hcalls; try done.
    rewrite (route_of_calls _ (reasoner_turn env (messages state)) (c :: cs));
      [|apply last_snoc|done|done|done].
    eexists _, _. split; [reflexivity|]. split; [done|].
    intros _. by apply last_ai_snoc.
  - simpl run_node. unfold toolNode.
    destruct (last_ai (messages state)) as [m|]; [|by destruct Hai].
    eexists _, _. split; [reflexivity|]. split; done.
  - eexists _, _. split; [reflexivity|]. split; done.
  - eexists _, _. split; [reflexivity|]. split; done.
Qed.

Lemma tasks_progress (env : Env) (state : State) (active : list Node) :
  always_proposes env →
  END ∉ active →
  last_ai (messages state) ≠ None →
  ∃ u next,
    tasks env state active = inr (u, next)
    ∧ (active ≠ [] → next ≠ []).
Proof.
  intros Hm Hend Hai. induction active as [|n rest IH].
  - eexists _, _. split; [reflexivity|done].
  - apply not_elem_of_cons in Hend as [Hn Hrest].
    destruct (task_progress env state n Hm) as (u & ns & Ht & Hns & _);
      [done..|].
    destruct (IH Hrest) as (us & nss & Hts & _).
    simpl. rewrite Ht, Hts. eexists _, _. split; [reflexivity|].
    intros _ Happ. by apply app_eq_nil in Happ as [? _].
Qed.

(** With such a reasoner, a run never finishes on its own: it stops at the
    bound, after exactly [limit] supersteps. *)
Lemma pregel_cycles (env : Env) (limit : nat) :
  always_proposes env →
  ∀ (active : list Node) (state : State) (tr : list Event) (n : nat),
    active ≠ [] → END ∉ active →
    last_ai (messages state) ≠ None ∨ active = [agent] →
    failure (pregel env limit active state tr n) = Some GraphRecursionError
    ∧ steps (pregel env limit active state tr n) = n + limit.
Proof.
  intros Hm. induction limit as [|limit IH];
    intros active state tr n Hne Hend Hinv.
  - destruct active; [done|]. simpl. split; [done|lia].
  - destruct active as [|a rest]; [done|]. cbn [pregel].
    assert (∃ u next,
              tasks env state (a :: rest) = inr (u, next)
              ∧ next ≠ []
              ∧ last_ai (messages state ++ u.1) ≠ None)
      as (u & next & Ht & Hnext & Hai).
    { destruct Hinv as [Hai|[= -> ->]].
      - destruct (tasks_progress env state (a :: rest) Hm Hend Hai)
          as (u & next & Ht & Hnext).
        exists u, next. split; [done|]. split; [by apply Hnext|].
        by apply last_ai_app.
      - destruct (task_progress env state agent Hm) as (u & ns & Ht & Hns & Hai);
          [done..|].
        simpl. rewrite Ht. eexists _, _. split; [reflexivity|].
        simpl. rewrite !app_nil_r. auto. }
    rewrite Ht.
    destruct (tasks_next env state (a :: rest) u next Ht Hend) as [Hend' _].
    destruct (IH (remove_dups next) (mkState (messages state ++ u.1))
                (tr ++ u.2) (S n)) as [H1 H2].
    + intros Hrd. destruct next as [|x xs]; [done|].
      assert (x ∈ remove_dups (x :: xs)) as Hx
        by (apply elem_of_remove_dups, list_elem_of_here).
      rewrite Hrd in Hx. by apply elem_of_nil in Hx.
    + by rewrite elem_of_remove_dups.
    + by left.
    + split; [done|]. rewrite H2. lia.
Qed.






(** ** The claim-detail gate *)

(** A turn that proposes the claim action alone reaches the dispatcher
    through the gate: rejected, the claim tool is not invoked. *)
Example claim_alone_rejected :
  let env := sample_env (propose_once [claim_call] "done")
               (reject_all "missing field: requested amount") in
  let r := (chat_run env ∅ (mkRequest "I was in a car accident" ∅)).1 in
  failure r = None
  ∧ trace r = [Rejected prepare_claim_detail claim_call
                 "missing field: requested amount"].
Proof. cbv zeta. split; vm_compute; reflexivity. Qed.

(** Approved, the claim tool is invoked after the gate's verdict. *)
Example claim_alone_approved :
  let env := sample_env (propose_once [claim_call] "done") accept_all in
  let r := (chat_run env ∅ (mkRequest "I was in a car accident" ∅)).1 in
  failure r = None
  ∧ trace r = [Approved prepare_claim_detail claim_call;
               Invoked "create_or_update_claim" claim_call].
Proof. cbv zeta. split; vm_compute; reflexivity. Qed.

(** C2: the claim tool's executor must not run without the claim-detail
    gate having approved the action.  The code breaks this for a turn that
    proposes the claim action together with an ungated one: the router
    returns the gate and the dispatcher as targets of the same superstep,
    and the dispatcher, which works on every pending call of the turn,
    invokes the claim tool although the gate rejects the action and never
    approves it. *)
Theorem C2_mixed_batch_bypasses_gate :
  let env := sample_env (propose_once [claim_call; fraud_call] "done")
               (reject_all "missing field: requested amount") in
  let r := (chat_run env ∅ (mkRequest "I was in a car accident" ∅)).1 in
  (shouldContinue
     (mkState [HumanMessage "I was in a car accident";
               AIMessage "" [claim_call; fraud_call]]) []).1
  = RouteTo [prepare_claim_detail; tools]
  ∧ trace r = [Rejected prepare_claim_detail claim_call
                 "missing field: requested amount";
               Invoked "create_or_update_claim" claim_call;
               Invoked "fraud_check" fraud_call]
  ∧ ∀ tc, Approved prepare_claim_detail tc ∉ trace r.
Proof.
  cbv zeta. split; [reflexivity|].
  assert (Htr : trace (chat_run
                  (sample_env (propose_once [claim_call; fraud_call] "done")
                     (reject_all "missing field: requested amount"))
                  ∅ (mkRequest "I was in a car accident" ∅)).1
                = [Rejected prepare_claim_detail claim_call
                     "missing field: requested amount";
                   Invoked "create_or_update_claim" claim_call;
                   Invoked "fraud_check" fraud_call])
    by (vm_compute; reflexivity).
  split; [exact Htr|]. intros tc. rewrite Htr.
  rewrite !elem_of_cons, elem_of_nil. intros [H|[H|[H|[]]]]; discriminate.
Qed.

(** ** The entry point *)

(** A run only appends to the history it starts from. *)
Lemma pregel_extends (env : Env) (limit : nat) :
  ∀ (active : list Node) (state : State) (tr : list Event) (n : nat),
    ∃ rest,
      messages (final (pregel env limit active state tr n))
      = messages state ++ rest.
Proof.
  induction limit as [|limit IH]; intros active state tr n.
  - exists []. rewrite app_nil_r. by destruct active.
  - destruct active as [|a rest]; [exists []; by rewrite app_nil_r|].
    cbn [pregel].
    destruct (tasks env state (a :: rest)) as [e|[u next]].
    + exists []. by rewrite app_nil_r.
    + destruct (IH (remove_dups next) (mkState (messages state ++ u.1))
                  (tr ++ u.2) (S n)) as [more Hmore].
      exists (u.1 ++ more). rewrite Hmore. simpl. by rewrite app_assoc.
Qed.

(** The router does not throw on a history that ends with a message. *)
Lemma route_of_snoc (ms : list Message) (m : Message) :
  route_of (mkState (ms ++ [m])) = RouteEnd
  ∨ ∃ targets, route_of (mkState (ms ++ [m])) = RouteTo targets.
Proof.
  unfold route_of, shouldContinue. simpl. rewrite last_snoc.
  destruct (negb _ || _) eqn:Hg; [by left|].
  apply orb_false_iff in Hg as [_ ->].
  destruct (map_route_call _ _). right. eauto.
Qed.

(** A run that starts with the reasoner, with at least one superstep
    allowed, has the reasoner's turn on the starting history as the first
    message it appends. *)
Lemma pregel_first_turn (env : Env) (limit : nat) (state : State)
    (tr : list Event) (n : nat) :
  ∃ rest,
    messages (final (pregel env (S limit) [agent] state tr n))
    = messages state ++ [reasoner_turn env (messages state)] ++ rest.
Proof.
  cbn [pregel tasks]. unfold task. simpl run_node.
  unfold next_nodes, callModel. cbn [fst snd].
  fold (reasoner_turn env (messages state)).
  destruct (decide (agent = conditional_source)) as [_|Hne]; [|done].
  assert (∃ next,
            match route_of (mkState (messages state
                                      ++ [reasoner_turn env (messages state)]))
            with
            | RouteEnd => inr []
            | RouteTo targets => inr targets
            | RouteThrow e => inl e
            end = (inr next : JsError + list Node)) as [next ->].
  { destruct (route_of_snoc (messages state)
                (reasoner_turn env (messages state))) as [->|[targets ->]];
      eauto. }
  cbn [fst snd].
  destruct (pregel_extends env limit (remove_dups (next ++ []))
              (mkState (messages state
                        ++ [reasoner_turn env (messages state)] ++ []))
              (tr ++ [] ++ []) (S n)) as [rest Hrest].
  exists rest. rewrite Hrest. simpl. rewrite ?app_nil_r, <- ?app_assoc. done.
Qed.

(** C8 (as amended): the entry point takes a new user message only.  The
    thread is the constant [thread1]: whatever other parameters a request
    carries, a [thread_id] included, the response and the checkpoints are
    the same.  The run continues the conversation of [thread1]: its history
    is the checkpointed history of [thread1], then the new user message,
    then the reasoner's turn on exactly that, then whatever the run adds;
    the result replaces the checkpoint of [thread1] and no other, so the
    next request starts from it; and when the run finishes, the response is
    the content of the last message of the final state. *)
Theorem C8_entry_point_uses_one_thread
    (env : Env) (saver : Checkpoints) (req : Request) :
  let r := (chat_run env saver req).1 in
  let earlier := messages (default (mkState []) (saver !! "thread1")) in
  (∀ other, chat env saver (mkRequest (message req) other) = chat env saver req)
  ∧ (chat env saver req).2 = <["thread1" := final r]> saver
  ∧ (∀ thread_id, thread_id ≠ "thread1" →
       (chat env saver req).2 !! thread_id = saver !! thread_id)
  ∧ (failure r = None →
     ∃ m, last (messages (final r)) = Some m
          ∧ (chat env saver req).1 = inr (content m))
  ∧ (∃ rest,
       messages (final r)
       = earlier ++ [HumanMessage (message req)]
         ++ [reasoner_turn env (earlier ++ [HumanMessage (message req)])]
         ++ rest)
  ∧ (∀ req2,
       chat_input (chat env saver req).2 req2
       = messages (final r) ++ [HumanMessage (message req2)]).
Proof.
  cbv zeta. split; [done|].
  assert (Hsaver : (chat env saver req).2
                   = <["thread1" := final (chat_run env saver req).1]> saver).
  { unfold chat. destruct (chat_run env saver req) as [r saver'] eqn:Hrun.
    unfold chat_run, invoke in Hrun. injection Hrun as <- <-. simpl.
    destruct (failure _); [done|]. by destruct (last _). }
  split; [exact Hsaver|]. split; [|split; [|split]].
  - intros thread_id Hne. rewrite Hsaver. by rewrite lookup_insert_ne.
  - intros Hf.
    destruct (chat_finished env saver req Hf) as (prior & Hfin & _ & Hresp).
    exists (reasoner_turn env prior). split; [|done].
    rewrite Hfin. apply last_snoc.
  - unfold chat_run, invoke, recursionLimit, config_thread_id. cbn [fst].
    change (successors START) with [agent].
    destruct (pregel_first_turn env 14
                (mkState (messages (default (mkState []) (saver !! "thread1"))
                          ++ [HumanMessage (message req)])) [] 0)
      as [rest Hrest].
    exists rest. rewrite Hrest. cbn [messages]. by rewrite <- !app_assoc.
  - intros req2. unfold chat_input. rewrite Hsaver.
    unfold config_thread_id. by rewrite lookup_insert_eq.
Qed.

(** C8 (as stated) fails: a request that names [thread2] runs on
    [thread1], and a later request that names [thread3] continues the very
    same conversation. *)
Lemma C8_thread_id_counterexample :
  let env := sample_env (plain_answer "ok") accept_all in
  let req1 := mkRequest "hello" {["thread_id" := "thread2"]} in
  let req2 := mkRequest "again" {["thread_id" := "thread3"]} in
  let saver1 := (chat env ∅ req1).2 in
  let saver2 := (chat env saver1 req2).2 in
  params req1 !! "thread_id" = Some "thread2"
  ∧ saver1 !! "thread2" = None
  ∧ messages <$> saver1 !! "thread1"
    = Some [HumanMessage "hello"; AIMessage "ok" []]
  ∧ messages <$> saver2 !! "thread3" = None
  ∧ messages <$> saver2 !! "thread1"
    = Some [HumanMessage "hello"; AIMessage "ok" [];
            HumanMessage "again"; AIMessage "ok" []].
Proof.
  cbv zeta. repeat split; vm_compute; reflexivity.
Qed.

(** * Further properties of the router, the wiring and the handler *)

(** ** Outcomes of the router *)

(** The router throws exactly on the empty history, and what it throws
    there is the [TypeError] of reading [_getType] of [undefined]; it
    prints nothing before throwing. *)
Theorem shouldContinue_throws_iff_empty (state : State) (out : Console) :
  ((∃ e, (shouldContinue state out).1 = RouteThrow e) ↔ messages state = [])
  ∧ (∀ e, (shouldContinue state out).1 = RouteThrow e →
       (∃ msg, e = TypeError msg) ∧ (shouldContinue state out).2 = out).
Proof.
  unfold shouldContinue. rewrite <- last_None.
  destruct (last (messages state)) as [m|]; simpl.
  - assert (Hno : ∀ e,
              (if negb (bool_decide (_getType m = ai)) || not_length (tool_calls m)
               then (RouteEnd, out)
               else if not_length (tool_calls m)
                    then (RouteThrow (Error "Expected tool_calls to be an array with at least one element"), out)
                    else let '(targets, out') :=
                           map_route_call (default [] (tool_calls m)) out in
                         (RouteTo targets, out')).1 ≠ RouteThrow e).
    { intros e. destruct (negb _); simpl; [done|].
      destruct (not_length _); [done|]. by destruct (map_route_call _ _). }
    split.
    + split; [intros [e He]; by apply Hno in He|done].
    + intros e He. by apply Hno in He.
  - split; [split; eauto|]. intros e [= <-]. eauto.
Qed.

(** The router answers [END] exactly when the history has a last message
    and that message is not an AI message or carries no tool call (the
    field absent, or an empty array). *)
Theorem shouldContinue_END_iff (state : State) (out : Console) :
  (shouldContinue state out).1 = RouteEnd
  ↔ ∃ m, last (messages state) = Some m
         ∧ (_getType m ≠ ai ∨ tool_calls m = None ∨ tool_calls m = Some []).
Proof.
  rewrite shouldContinue_fst. split.
  - unfold route_of, shouldContinue.
    destruct (last (messages state)) as [m|]; [|done].
    intros H. exists m. split; [done|].
    destruct (decide (_getType m = ai)) as [Hai|Hai]; [|by left]. right.
    rewrite bool_decide_true in H by done. simpl in H.
    destruct (tool_calls m) as [[|c cs]|]; [by right|exfalso|by left].
    simpl in H. by destruct (route_call c []), (map_route_call cs _).
  - intros (m & Hl & H). apply (route_of_no_calls state m Hl).
    destruct H as [H|[H|H]]; [by left|right; by rewrite H..].
Qed.

(** Routing ignores payloads.  Two states whose last messages have the same
    type and the same tool names in the same order get the same targets,
    whatever the content of the messages and the arguments and ids of the
    calls. *)
Theorem routing_ignores_payload
    (state1 state2 : State) (m1 m2 : Message) (out1 out2 : Console) :
  last (messages state1) = Some m1 →
  last (messages state2) = Some m2 →
  _getType m1 = _getType m2 →
  fmap (M := list) name <$> tool_calls m1
  = fmap (M := list) name <$> tool_calls m2 →
  (shouldContinue state1 out1).1 = (shouldContinue state2 out2).1.
Proof.
  intros H1 H2 Ht Hn. rewrite !shouldContinue_fst.
  assert (Htargets : ∀ cs1 cs2 : list ToolCall,
            name <$> cs1 = name <$> cs2 → target_of <$> cs1 = target_of <$> cs2).
  { induction cs1 as [|c1 cs1 IH]; intros [|c2 cs2] Hcs; try done.
    rewrite !fmap_cons in Hcs. injection Hcs as Hc Hcs.
    rewrite !fmap_cons, (IH cs2 Hcs).
    f_equal. unfold target_of, route_call. by rewrite Hc. }
  destruct (tool_calls m1) as [cs1|] eqn:Hc1, (tool_calls m2) as [cs2|] eqn:Hc2;
    try done.
  - simpl in Hn. injection Hn as Hn.
    destruct cs1 as [|c1 cs1], cs2 as [|c2 cs2]; try done.
    + rewrite (route_of_no_calls state1 m1), (route_of_no_calls state2 m2);
        try done; right; by rewrite ?Hc1, ?Hc2.
    + destruct (decide (_getType m1 = ai)) as [Hai|Hai].
      * rewrite (route_of_calls state1 m1 (c1 :: cs1)),
                (route_of_calls state2 m2 (c2 :: cs2)); try done; [|congruence].
        f_equal. by apply Htargets.
      * rewrite (route_of_no_calls state1 m1), (route_of_no_calls state2 m2);
          try done; left; congruence.
  - rewrite (route_of_no_calls state1 m1), (route_of_no_calls state2 m2);
      try done; right; by rewrite ?Hc1, ?Hc2.
Qed.

Lemma routing_ignores_payload_witness :
  (shouldContinue
     (mkState [AIMessage "let me update the claim" [claim_call; fraud_call]])
     []).1
  = (shouldContinue
       (mkState [HumanMessage "hi";
                 AIMessage ""
                   [mkToolCall "create_or_update_claim" [("claimId", "9")] None;
                    mkToolCall "fraud_check" [] (Some "other")]])
       ["earlier line"]).1.
Proof.
  exact (routing_ignores_payload
           (mkState [AIMessage "let me update the claim" [claim_call; fraud_call]])
           (mkState [HumanMessage "hi";
                     AIMessage ""
                       [mkToolCall "create_or_update_claim" [("claimId", "9")] None;
                        mkToolCall "fraud_check" [] (Some "other")]])
           (AIMessage "let me update the claim" [claim_call; fraud_call])
           (AIMessage ""
              [mkToolCall "create_or_update_claim" [("claimId", "9")] None;
               mkToolCall "fraud_check" [] (Some "other")])
           [] ["earlier line"] eq_refl eq_refl eq_refl eq_refl).
Defined.

(** ** What the router prints *)

Lemma map_route_call_console (tcs : list ToolCall) (out : Console) :
  (map_route_call tcs out).2
  = out ++ replicate
             (length (filter (λ n, n = execute_approve_payment)
                        (map_route_call tcs out).1))
             approval_line.
Proof.
  revert out. induction tcs as [|tc rest IH]; intros out.
  - simpl. by rewrite app_nil_r.
  - cbn [map_route_call]. unfold route_call.
    destruct (String.eqb (name tc) "create_or_update_claim").
    + specialize (IH out). destruct (map_route_call rest out) as [ns out2].
      cbn [fst snd] in *. by rewrite filter_cons_False.
    + destruct (String.eqb (name tc) "approve_payment").
      * specialize (IH (out ++ [approval_line])).
        fold approval_line.
        destruct (map_route_call rest (out ++ [approval_line])) as [ns out2].
        cbn [fst snd] in *. rewrite filter_cons_True by done.
        cbn [length replicate]. by rewrite IH, <- app_assoc.
      * specialize (IH out). destruct (map_route_call rest out) as [ns out2].
        cbn [fst snd] in *. by rewrite filter_cons_False.
Qed.

(** The router keeps every line already on the console and adds the same
    line once per action it sends to the approval gate, and nothing else:
    nothing at all when it answers [END] or throws. *)
Theorem shouldContinue_console (state : State) (out : Console) :
  (shouldContinue state out).2
  = out ++ replicate
             (match (shouldContinue state out).1 with
              | RouteTo targets =>
                  length (filter (λ n, n = execute_approve_payment) targets)
              | _ => 0
              end)
             approval_line.
Proof.
  unfold shouldContinue.
  destruct (last (messages state)) as [m|]; [|by rewrite app_nil_r].
  destruct (negb _ || _); [by rewrite app_nil_r|].
  destruct (not_length _); [by rewrite app_nil_r|].
  pose proof (map_route_call_console (default [] (tool_calls m)) out) as H.
  by destruct (map_route_call _ out).
Qed.

(** ** Which actions reach which node *)

Lemma target_of_iff (tc : ToolCall) :
  (target_of tc = prepare_claim_detail ↔ name tc = "create_or_update_claim")
  ∧ (target_of tc = execute_approve_payment ↔ name tc = "approve_payment")
  ∧ (target_of tc = tools
     ↔ name tc ≠ "create_or_update_claim" ∧ name tc ≠ "approve_payment").
Proof.
  unfold target_of, route_call.
  destruct (String.eqb_spec (name tc) "create_or_update_claim") as [H1|H1].
  - rewrite H1. repeat split; try done. by intros [? _].
  - destruct (String.eqb_spec (name tc) "approve_payment") as [H2|H2].
    + rewrite H2. repeat split; try done. by intros [_ ?].
    + repeat split; done.
Qed.

(** A gate is the target of its own actions only: in the array the router
    returns, the claim-detail gate stands exactly at the positions of the
    calls named [create_or_update_claim], the approval gate exactly at the
    positions of the calls named [approve_payment], and the dispatcher at
    all the others. *)
Theorem gates_get_only_their_actions
    (state : State) (m : Message) (calls : list ToolCall)
    (targets : list Node) (out : Console) :
  last (messages state) = Some m →
  tool_calls m = Some calls →
  (shouldContinue state out).1 = RouteTo targets →
  ∀ i c n, calls !! i = Some c → targets !! i = Some n →
    (n = prepare_claim_detail ↔ name c = "create_or_update_claim")
    ∧ (n = execute_approve_payment ↔ name c = "approve_payment")
    ∧ (n = tools
       ↔ name c ≠ "create_or_update_claim" ∧ name c ≠ "approve_payment").
Proof.
  intros Hl Hc Hr i c n Hi Hn. rewrite shouldContinue_fst in Hr.
  destruct (decide (_getType m = ai)) as [Hai|Hai].
  - destruct calls as [|c0 cs]; [done|].
    set (calls := c0 :: cs) in *.
    rewrite (route_of_calls state m calls) in Hr by done.
    assert (Ht : targets = target_of <$> calls) by congruence.
    rewrite Ht, list_lookup_fmap, Hi in Hn.
    injection Hn as <-. apply target_of_iff.
  - rewrite (route_of_no_calls state m) in Hr; [done|done|by left].
Qed.

Lemma gates_get_only_their_actions_witness :
  (prepare_claim_detail = prepare_claim_detail
   ↔ name claim_call = "create_or_update_claim")
  ∧ (prepare_claim_detail = execute_approve_payment
     ↔ name claim_call = "approve_payment")
  ∧ (prepare_claim_detail = tools
     ↔ name claim_call ≠ "create_or_update_claim"
       ∧ name claim_call ≠ "approve_payment").
Proof.
  exact (gates_get_only_their_actions
           (mkState [AIMessage "" [fraud_call; claim_call; payment_call]])
           (AIMessage "" [fraud_call; claim_call; payment_call])
           [fraud_call; claim_call; payment_call]
           [tools; prepare_claim_detail; execute_approve_payment] []
           eq_refl eq_refl eq_refl
           1 claim_call prepare_claim_detail eq_refl eq_refl).
Defined.

(** When the router returns an array, the array is what the wiring
    expects: it is not empty, it has one entry per tool call of the last
    message, and every entry is one of the three working nodes, each of
    them declared as an end of the conditional edge; [END], [START] and
    [agent] never occur in it. *)
Theorem router_array_wellformed
    (state : State) (targets : list Node) (out : Console) :
  (shouldContinue state out).1 = RouteTo targets →
  targets ≠ []
  ∧ (∃ m calls,
       last (messages state) = Some m
       ∧ tool_calls m = Some calls
       ∧ length targets = length calls)
  ∧ ∀ n, n ∈ targets →
      n ∈ workers ∧ n ∈ conditional_ends
      ∧ n ≠ END ∧ n ≠ START ∧ n ≠ agent.
Proof.
  rewrite shouldContinue_fst. intros Hr.
  assert (∃ m calls,
            last (messages state) = Some m ∧ tool_calls m = Some calls
            ∧ targets = target_of <$> calls)
    as (m & calls & Hl & Hc & ->).
  { revert Hr. unfold route_of, shouldContinue.
    destruct (last (messages state)) as [m|]; [|done].
    destruct (negb _ || _); [done|].
    destruct (tool_calls m) as [calls|] eqn:Hc; [|done].
    destruct (not_length _); [done|].
    pose proof (map_route_call_fst (default [] (Some calls)) []) as H.
    destruct (map_route_call _ _) as [ts o]. simpl in *.
    intros [= <-]. eauto. }
  split; [|split].
  - intros Hnil. rewrite Hnil in Hr. by apply route_of_targets_nonempty in Hr.
  - exists m, calls. by rewrite length_fmap.
  - intros n Hn. apply list_elem_of_fmap in Hn as (c & -> & _).
    split; [|split; [apply target_of_declared|]].
    + unfold target_of, route_call, workers.
      destruct (String.eqb _ _); [set_solver|].
      destruct (String.eqb _ _); set_solver.
    + unfold target_of, route_call.
      destruct (String.eqb _ _); [done|]. by destruct (String.eqb _ _).
Qed.

Lemma router_array_wellformed_witness :
  [prepare_claim_detail; tools] ≠ []
  ∧ (∃ m calls,
       last [HumanMessage "hi"; AIMessage "" [claim_call; fraud_call]] = Some m
       ∧ tool_calls m = Some calls
       ∧ length [prepare_claim_detail; tools] = length calls)
  ∧ ∀ n, n ∈ [prepare_claim_detail; tools] →
      n ∈ workers ∧ n ∈ conditional_ends
      ∧ n ≠ END ∧ n ≠ START ∧ n ≠ agent.
Proof.
  exact (router_array_wellformed
           (mkState [HumanMessage "hi"; AIMessage "" [claim_call; fraud_call]])
           [prepare_claim_detail; tools] [] eq_refl).
Defined.

(** ** The exported [route] *)

(** [route] sends a state back to [agent] only when the history is empty,
    which is exactly where [shouldContinue] throws; on every state that
    [shouldContinue] can classify, whether it ends the run there or
    continues it, [route] answers [END]. *)
Theorem route_agrees_only_on_end (state : State) (out : Console) :
  (route state = agent ↔ ∃ e, (shouldContinue state out).1 = RouteThrow e)
  ∧ (route state = END ↔ messages state ≠ [])
  ∧ ((shouldContinue state out).1 = RouteEnd → route state = END)
  ∧ (∀ targets,
       (shouldContinue state out).1 = RouteTo targets → route state = END).
Proof.
  destruct (shouldContinue_throws_iff_empty state out) as [Hthrow _].
  assert (Hroute : route state = agent ↔ messages state = []).
  { unfold route. destruct (messages state); simpl; split; done. }
  assert (Hend : route state = END ↔ messages state ≠ []).
  { unfold route. destruct (messages state); simpl; split; done. }
  split; [by rewrite Hroute, Hthrow|]. split; [done|]. split.
  - intros Hr. apply Hend. intros Hnil.
    apply Hthrow in Hnil as [e He]. congruence.
  - intros targets Hr. apply Hend. intros Hnil.
    apply Hthrow in Hnil as [e He]. congruence.
Qed.

(** ** The shape of the graph *)

(** Every node is reachable from [START] in at most three moves, [END]
    included, so a run can reach every node and can terminate; [END] can
    only be entered from [agent]; nothing leaves [END] and nothing enters
    [START]. *)
Theorem graph_shape (n : Node) :
  n ∈ reach 3 START
  ∧ (END ∈ out_edges n ↔ n = agent)
  ∧ (START ∉ out_edges n)
  ∧ out_edges END = []
  ∧ (n ≠ END → out_edges n ≠ []).
Proof.
  assert (Hin : ∀ (x : Node) (l : list Node),
            bool_decide (x ∈ l) = true → x ∈ l)
    by (intros x l; apply bool_decide_eq_true_1).
  assert (Hout : ∀ (x : Node) (l : list Node),
            bool_decide (x ∉ l) = true → x ∉ l)
    by (intros x l; apply bool_decide_eq_true_1).
  split; [by destruct n; apply Hin|]. split; [|split; [|split]].
  - destruct n; (split; [|done || (intros _; by apply Hin)]);
      intros H; try done; exfalso; revert H; by apply Hout.
  - by destruct n; apply Hout.
  - done.
  - by destruct n.
Qed.

(** ** The response of the handler *)

(** The handler prints the content of every message of the result, in
    order, after what was printed before, and answers with the content of
    the last message, which is therefore the last line it printed; on a
    result without messages it prints nothing and throws.  The response of
    a request that finished is the one computed this way. *)
Theorem respond_last_line (result : State) (out : Console) :
  (respond result out).2 = out ++ (content <$> messages result)
  ∧ (messages result = [] →
     ∃ msg, respond result out = (inl (TypeError msg), out))
  ∧ (∀ m, last (messages result) = Some m →
       (respond result out).1 = inr (content m)
       ∧ last (respond result out).2 = Some (content m))
  ∧ (∀ env saver req,
       failure (chat_run env saver req).1 = None →
       (chat env saver req).1
       = (respond (final (chat_run env saver req).1) out).1).
Proof.
  unfold respond. split; [by destruct (last _)|]. split; [|split].
  - intros ->. simpl. rewrite app_nil_r. eauto.
  - intros m Hm. rewrite Hm. simpl. split; [done|].
    apply last_Some in Hm as [l' ->].
    rewrite fmap_app, app_assoc. apply last_snoc.
  - intros env saver req Hf. unfold chat.
    destruct (chat_run env saver req) as [r saver'] eqn:Hrun.
    simpl in *. rewrite Hf. by destruct (last (messages (final r))).
Qed.
